(** * http-request-id: the [requestId] middleware of src/index.ts

    A shallow embedding of the Connect-style middleware factory
    [requestId(options?)] and of the handler it returns, followed by the
    properties of the handler.

    The handler mutates two host objects (the request and the response),
    draws from [crypto.randomUUID], calls a user generator that may throw,
    and finally calls the continuation [next].  These effects are threaded
    through a small state-and-exception monad that also records the calls
    the handler makes to its collaborators.

    [requestId] is the handler on a host whose [res.setHeader] accepts every
    write; [requestId_on] is the handler on an arbitrary host, whose
    [res.setHeader] may throw. *)

From stdpp Require Import base option strings gmap list pretty.

(** ** Host objects (node:http, node:crypto) *)

Module Http.

(** A header of an incoming message: [string | string[]].  The third
    alternative of the TypeScript type, [undefined], is the absence of
    the key in the header object. *)
Inductive HeaderValue : Type :=
| Single (s : string)
| Multi (l : list string).

(** [IncomingMessage], restricted to what the middleware touches:
    [headers] (read with [?.], hence possibly [undefined]) and the
    augmented optional field [requestId?: string]. *)
Record IncomingMessage : Type := mkIncomingMessage {
  headers : option (gmap string HeaderValue);
  requestId : option string
}.

(** [ServerResponse], restricted to its outgoing header table. *)
Record ServerResponse : Type := mkServerResponse {
  outHeaders : gmap string string
}.

End Http.

Module Crypto.

(** The entropy behind [randomUUID()]: an unknown supply of identifiers
    and the number of identifiers drawn so far. *)
Record t : Type := mk {
  supply : nat → string;
  drawn : nat
}.

End Crypto.

Import Http.

(** ** Effects *)

(** A thrown JavaScript value. *)
Definition Exn : Type := string.

Inductive Completion (A : Type) : Type :=
| Normal (a : A)
| Throw (e : Exn).
Arguments Normal {A} a.
Arguments Throw {A} e.

(** Everything a call of the handler can read or mutate. *)
Record World : Type := mkWorld {
  req : IncomingMessage;
  res : ServerResponse;
  crypto : Crypto.t
}.

(** Calls made by the handler to its collaborators, in program order.
    [EvNext err w] records that the continuation was entered with argument
    [err] when the world was [w]. *)
Inductive Event : Type :=
| EvGenerator (r : IncomingMessage)
| EvRandomUUID
| EvSetHeader (name value : string)
| EvAssignRequestId (value : string)
| EvNext (err : option Exn) (w : World).

Record Run (A : Type) : Type := mkRun {
  completion : Completion A;
  final : World;
  trace : list Event
}.
Arguments mkRun {A} _ _ _.
Arguments completion {A} _.
Arguments final {A} _.
Arguments trace {A} _.

Definition M (A : Type) : Type := World → Run A.

#[global] Instance M_ret : MRet M :=
  λ A a w, mkRun (Normal a) w [].

#[global] Instance M_bind : MBind M :=
  λ A B k m w,
    let r := m w in
    match completion r with
    | Normal a =>
        let r' := k a (final r) in
        mkRun (completion r') (final r') (trace r ++ trace r')
    | Throw e => mkRun (Throw e) (final r) (trace r)
    end.

(** The user callbacks.  A generator reads the request, may draw
    randomness and may throw; the continuation is arbitrary downstream
    code. *)
Definition Generator : Type :=
  IncomingMessage → Crypto.t → Completion string * Crypto.t.

Definition Continuation : Type :=
  option Exn → World → Completion unit * World.

Definition Middleware : Type := Continuation → M unit.

(** *** Primitive operations *)

(** [generator(req)] *)
Definition call_generator (g : Generator) : M string :=
  λ w, let '(c, cr) := g (req w) (crypto w) in
       mkRun c (mkWorld (req w) (res w) cr) [EvGenerator (req w)].

(** [randomUUID()] *)
Definition randomUUID : M string :=
  λ w, let cr := crypto w in
       mkRun (Normal (Crypto.supply cr (Crypto.drawn cr)))
             (mkWorld (req w) (res w)
                      (Crypto.mk (Crypto.supply cr) (S (Crypto.drawn cr))))
             [EvRandomUUID].

(** [req.headers?.[name]] *)
Definition get_header (name : string) : M (option HeaderValue) :=
  λ w, mkRun (Normal (headers (req w) ≫= (.!! name))) w [].

(** [res.setHeader(name, value)] on a host that accepts every write and
    stores the value under the name as given, replacing an earlier value.
    [setHeader_on] below is the call on an arbitrary host. *)
Definition setHeader (name value : string) : M unit :=
  λ w, mkRun (Normal ())
             (mkWorld (req w)
                      (mkServerResponse (<[name := value]> (outHeaders (res w))))
                      (crypto w))
             [EvSetHeader name value].

(** [req.requestId = value] *)
Definition assign_requestId (value : string) : M unit :=
  λ w, mkRun (Normal ())
             (mkWorld (mkIncomingMessage (headers (req w)) (Some value))
                      (res w) (crypto w))
             [EvAssignRequestId value].

(** [next(err)] *)
Definition call_next (next : Continuation) (err : option Exn) : M unit :=
  λ w, let '(c, w') := next err w in
       mkRun c w' [EvNext err w].

(** ** The middleware *)

Module Opt.

(** [RequestIdOptions]: every field is optional. *)
Record RequestIdOptions : Type := mk {
  generator : option Generator;
  headerName : option string;
  setResponseHeader : option bool
}.

End Opt.

Abbreviation RequestIdOptions := Opt.RequestIdOptions.

(** [const headerName = options?.headerName ?? "x-request-id"] *)
Definition headerName (options : option RequestIdOptions) : string :=
  default "x-request-id" (options ≫= Opt.headerName).

(** [const setResponseHeader = options?.setResponseHeader ?? true] *)
Definition setResponseHeader (options : option RequestIdOptions) : bool :=
  default true (options ≫= Opt.setResponseHeader).

(** [const generatedId = options?.generator?.(req) ?? randomUUID()].
    A generator is typed to return a string, which is never nullish, so
    [randomUUID] runs exactly when no generator is configured. *)
Definition generatedId (options : option RequestIdOptions) : M string :=
  match options ≫= Opt.generator with
  | Some g => call_generator g
  | None => randomUUID
  end.

(** [Array.isArray(incomingHeader)
       ? incomingHeader?.[0] ?? generatedId
       : incomingHeader ?? generatedId] *)
Definition requestIdValue
    (incomingHeader : option HeaderValue) (generatedId : string) : string :=
  match incomingHeader with
  | Some (Multi l) => default generatedId (l !! 0)
  | Some (Single s) => s
  | None => generatedId
  end.

(** [requestId(options)], the factory; its result is the per-request
    handler [(req, res, next) => void], with [req] and [res] living in the
    world. *)
Definition requestId (options : option RequestIdOptions) : Middleware :=
  let headerName := headerName options in
  let setResponseHeader := setResponseHeader options in
  λ next,
    generatedId ← generatedId options;
    incomingHeader ← get_header headerName;
    let requestIdValue := requestIdValue incomingHeader generatedId in
    (if setResponseHeader then setHeader headerName requestIdValue
     else mret ());;
    assign_requestId requestIdValue;;
    call_next next None.

(** ** Observations on a run *)

(** Calls that compute a candidate identifier. *)
Definition is_generation (e : Event) : bool :=
  match e with
  | EvGenerator _ | EvRandomUUID => true
  | _ => false
  end.

Definition generation_calls (t : list Event) : nat :=
  length (List.filter is_generation t).

(** The calls of the continuation: argument and world at entry. *)
Definition next_calls (t : list Event) : list (option Exn * World) :=
  omap (λ e, match e with EvNext err w => Some (err, w) | _ => None end) t.

(** The calls of [res.setHeader]. *)
Definition header_writes (t : list Event) : list (string * string) :=
  omap (λ e, match e with EvSetHeader n v => Some (n, v) | _ => None end) t.

(** The assignments to [req.requestId]. *)
Definition requestId_writes (t : list Event) : list string :=
  omap (λ e, match e with EvAssignRequestId v => Some v | _ => None end) t.

(** The value under the configured header name, as the handler reads it. *)
Definition incomingHeader
    (options : option RequestIdOptions) (w : World) : option HeaderValue :=
  headers (req w) ≫= (.!! headerName options).

(** The resolved identifier of a request, given the candidate. *)
Definition resolved
    (options : option RequestIdOptions) (w : World) (id : string) : string :=
  requestIdValue (incomingHeader options w) id.

(** The world in which the handler enters the continuation, given the
    candidate [id] and the entropy [cr] left by its computation. *)
Definition handed_over
    (options : option RequestIdOptions) (w : World) (id : string)
    (cr : Crypto.t) : World :=
  let v := resolved options w id in
  mkWorld
    (mkIncomingMessage (headers (req w)) (Some v))
    (if setResponseHeader options
     then mkServerResponse (<[headerName options := v]> (outHeaders (res w)))
     else res w)
    cr.

(** Reads the observations off a trace of known shape. *)
Ltac observe Hev :=
  unfold next_calls, header_writes, requestId_writes, generation_calls;
  match type of Hev with
  | is_generation ?ev = true => destruct ev; try discriminate Hev
  end;
  cbn; try done.

(** ** The handler on an arbitrary host

    [res.setHeader] belongs to the host.  It may refuse a write by throwing
    (an invalid name or value, headers already sent) and it decides under
    which key the value is stored.  A host is given by what its [setHeader]
    makes of a response. *)

Record Host : Type := mkHost {
  host_setHeader : string → string → ServerResponse → Completion ServerResponse
}.

(** [res.setHeader(name, value)] on the host: the call is made, and either
    it throws and the response stays as it was, or it returns and the
    response is what the host made of it. *)
Definition setHeader_on (host : Host) (name value : string) : M unit :=
  λ w, match host_setHeader host name value (res w) with
       | Normal rs =>
           mkRun (Normal ()) (mkWorld (req w) rs (crypto w))
                 [EvSetHeader name value]
       | Throw e => mkRun (Throw e) w [EvSetHeader name value]
       end.

(** [requestId(options)] with [res] on the given host. *)
Definition requestId_on
    (host : Host) (options : option RequestIdOptions) : Middleware :=
  let headerName := headerName options in
  let setResponseHeader := setResponseHeader options in
  λ next,
    generatedId ← generatedId options;
    incomingHeader ← get_header headerName;
    let requestIdValue := requestIdValue incomingHeader generatedId in
    (if setResponseHeader then setHeader_on host headerName requestIdValue
     else mret ());;
    assign_requestId requestIdValue;;
    call_next next None.

(** The host of [setHeader]: every write is accepted and stored under the
    name as given. *)
Definition accepting : Host :=
  mkHost (λ name value rs,
            Normal (mkServerResponse (<[name := value]> (outHeaders rs)))).

(** A host that refuses a header name with a space in it, as a name that is
    not an HTTP token is refused, and accepts the others. *)
Definition refusing_spaces : Host :=
  mkHost (λ name value rs,
            match String.index 0 " " name with
            | Some _ => Throw "ERR_INVALID_HTTP_TOKEN"
            | None => Normal (mkServerResponse (<[name := value]> (outHeaders rs)))
            end).

(** The world in which the continuation is entered when the candidate is
    [id], the response has become [rs] and the entropy [cr]. *)
Definition entry_world
    (options : option RequestIdOptions) (w : World) (id : string)
    (rs : ServerResponse) (cr : Crypto.t) : World :=
  mkWorld (mkIncomingMessage (headers (req w)) (Some (resolved options w id)))
          rs cr.

(** The ways a call can go: the generator throws, the host refuses the
    write, or the continuation is reached. *)
Inductive Outcome
    (host : Host) (options : option RequestIdOptions) (w : World) : Prop :=
| GeneratorThrew (e : Exn)
    (Hg : completion (generatedId options w) = Throw e)
| HostRefused (id : string) (e : Exn)
    (Hg : completion (generatedId options w) = Normal id)
    (Hset : setResponseHeader options = true)
    (Hhost : host_setHeader host (headerName options) (resolved options w id)
               (res w) = Throw e)
| Reached (id : string) (rs : ServerResponse)
    (Hg : completion (generatedId options w) = Normal id)
    (Hhost : if setResponseHeader options
             then host_setHeader host (headerName options)
                    (resolved options w id) (res w) = Normal rs
             else rs = res w).

(** The continuation that does nothing. *)
Definition done : Continuation := λ _ w, (Normal (), w).

(** ** Statements used below *)

(** The value read under the configured header name is empty: the empty
    string, or a list that starts with the empty string. *)
Definition empty_incoming
    (options : option RequestIdOptions) (w : World) : Prop :=
  incomingHeader options w = Some (Single "")
  ∨ ∃ rest, incomingHeader options w = Some (Multi ("" :: rest)).

(** The empty-value fallback as the specification words it: on an empty
    incoming value the continuation sees the candidate as [req.requestId],
    and not the empty string. *)
Definition empty_value_fallback
    (options : option RequestIdOptions) (next : Continuation) (w : World)
    : Prop :=
  ∀ id,
    completion (generatedId options w) = Normal id →
    empty_incoming options w →
    ∃ w',
      next_calls (trace (requestId options next w)) = [(None, w')]
      ∧ Http.requestId (req w') = Some id
      ∧ Http.requestId (req w') ≠ Some "".

(** A generator without randomness: how it completes on a request does
    not depend on the entropy. *)
Definition without_randomness (g : Generator) : Prop :=
  ∀ r c1 c2, (g r c1).1 = (g r c2).1.

(** A generator determined by the headers: how it completes is fixed by the
    headers of the request it is given, and by nothing else that may differ
    between two calls. *)
Definition determined_by_headers (g : Generator) : Prop :=
  ∀ r1 r2 c1 c2, headers r1 = headers r2 → (g r1 c1).1 = (g r2 c2).1.

(** Deterministic resolution as the specification words it: with a
    generator without randomness, two calls on requests with the same
    headers hand the same [req.requestId] to their continuations. *)
Definition same_headers_same_id
    (options : option RequestIdOptions) (next1 next2 : Continuation)
    (w1 w2 : World) : Prop :=
  ∀ g : Generator,
    options ≫= Opt.generator = Some g →
    without_randomness g →
    headers (req w1) = headers (req w2) →
    ∃ v w1' w2',
      next_calls (trace (requestId options next1 w1)) = [(None, w1')]
      ∧ next_calls (trace (requestId options next2 w2)) = [(None, w2')]
      ∧ Http.requestId (req w1') = Some v
      ∧ Http.requestId (req w2') = Some v.

(** The candidate [id], computed with the entropy left at [cr], is the one
    the call goes on with: the first write of the run (to the response
    header when the echo is enabled, to [req.requestId] otherwise) carries
    the identifier resolved from it, and [cr] is the entropy found by the
    continuation and left by the handler. *)
Definition candidate_is_used
    (host : Host) (options : option RequestIdOptions) (next : Continuation)
    (w : World) (id : string) (cr : Crypto.t) : Prop :=
  (if setResponseHeader options
   then header_writes (trace (requestId_on host options next w))
        = [(headerName options, resolved options w id)]
   else requestId_writes (trace (requestId_on host options next w))
        = [resolved options w id])
  ∧ Forall (λ c, crypto c.2 = cr)
           (next_calls (trace (requestId_on host options next w)))
  ∧ crypto (final (requestId_on host options done w)) = cr.

(** The continuation guarantee as the specification words it: whenever the
    candidate is computed without a throw, the continuation is entered
    once with no error and the handler completes as it does. *)
Definition never_short_circuits
    (host : Host) (options : option RequestIdOptions) (next : Continuation)
    (w : World) : Prop :=
  ∀ id,
    completion (generatedId options w) = Normal id →
    ∃ w',
      next_calls (trace (requestId_on host options next w)) = [(None, w')]
      ∧ (completion (requestId_on host options next w),
         final (requestId_on host options next w))
        = next None w'.

(** What a call leaves alone between the world [w] it starts in and a later
    world [w']: the headers of the request are the same, and the response
    is either the same or what one [res.setHeader] under the configured
    name, made with the echo enabled, has turned it into. *)
Definition frame_kept
    (host : Host) (options : option RequestIdOptions) (w w' : World) : Prop :=
  headers (req w') = headers (req w)
  ∧ (res w' = res w
     ∨ setResponseHeader options = true
       ∧ ∃ v, host_setHeader host (headerName options) v (res w)
              = Normal (res w')).

(** ** Fixtures *)

Definition no_entropy : Crypto.t := Crypto.mk (λ _, "uuid") 0.

Definition request (hs : list (string * HeaderValue)) : World :=
  mkWorld (mkIncomingMessage (Some (list_to_map hs)) None)
          (mkServerResponse ∅) no_entropy.

Definition bare_request : World :=
  mkWorld (mkIncomingMessage None None) (mkServerResponse ∅) no_entropy.

Definition constant (id : string) : Generator := λ _ cr, (Normal id, cr).

Definition failing (e : Exn) : Generator := λ _ cr, (Throw e, cr).

Definition with_generator (g : Generator) : option RequestIdOptions :=
  Some (Opt.mk (Some g) None None).

Definition echo_off : option RequestIdOptions :=
  Some (Opt.mk None None (Some false)).

Definition empty_single : World := request [("x-request-id", Single "")].

Definition empty_first : World :=
  request [("x-request-id", Multi [""; "id-2"])].

(** The configuration of the documented Express example: a mixed-case
    header name, here with a generator that returns ["gen"]. *)
Definition correlation_options : option RequestIdOptions :=
  Some (Opt.mk (Some (constant "gen")) (Some "X-Correlation-Id") None).

(** A second request with the headers of [request hs], met in another
    state: a response that already has a header, spent entropy, and a
    [req.requestId] left by an earlier pass. *)
Definition request_again (hs : list (string * HeaderValue)) : World :=
  mkWorld (mkIncomingMessage (Some (list_to_map hs)) (Some "earlier"))
          (mkServerResponse {[ "x-request-id" := "stale" ]})
          (Crypto.mk (λ _, "other") 7).

(** ** Frame and further fixtures *)

(** A request with the given headers, served when [n] identifiers have
    been drawn from a supply that never repeats itself. *)
Definition numbered_request
    (n : nat) (hs : list (string * HeaderValue)) : World :=
  mkWorld (mkIncomingMessage (Some (list_to_map hs)) None)
          (mkServerResponse ∅) (Crypto.mk pretty n).

(** The generator [req => req.requestId ?? "fresh"]: no randomness, and a
    result that depends on more than the headers. *)
Definition remembering : Generator :=
  λ r cr, (Normal (default "fresh" (Http.requestId r)), cr).

(** A configuration whose header name has a space in it. *)
Definition bad_name_options : option RequestIdOptions :=
  Some (Opt.mk (Some (constant "gen")) (Some "bad name") None).

(** ** The handler on the requests of the README

    Default generation, header precedence, first of several values, a
    custom header name, a custom generator, and a generator that throws. *)

Example default_generation :
  Http.requestId (req (final (requestId None done (request [])))) = Some "uuid"
  ∧ outHeaders (res (final (requestId None done (request []))))
      !! "x-request-id" = Some "uuid".
Proof. split; vm_compute; reflexivity. Qed.

Example precedence_abc_123 :
  Http.requestId
    (req (final (requestId None done
                   (request [("x-request-id", Single "abc-123")]))))
  = Some "abc-123".
Proof. vm_compute; reflexivity. Qed.

Example first_of_two_values :
  Http.requestId
    (req (final (requestId None done
                   (request [("x-request-id", Multi ["id-1"; "id-2"])]))))
  = Some "id-1".
Proof. vm_compute; reflexivity. Qed.

Example custom_header_name :
  outHeaders
    (res (final (requestId (Some (Opt.mk None (Some "x-correlation-id") None))
                   done (request [("x-correlation-id", Single "c-7")]))))
  = {[ "x-correlation-id" := "c-7" ]}.
Proof. vm_compute; reflexivity. Qed.

Example custom_generator :
  Http.requestId
    (req (final (requestId (with_generator (constant "fixed-id")) done
                   (request []))))
  = Some "fixed-id".
Proof. vm_compute; reflexivity. Qed.

Example throwing_generator_propagates :
  completion (requestId (with_generator (failing "boom")) done (request []))
  = Throw "boom"
  ∧ next_calls
      (trace (requestId (with_generator (failing "boom")) done (request [])))
    = []
  ∧ Http.requestId
      (req (final (requestId (with_generator (failing "boom")) done
                     (request []))))
    = None.
Proof. repeat split; vm_compute; reflexivity. Qed.

(** ** The run of the handler, step by step *)

(** Computing the candidate is one call, of the generator or of
    [randomUUID], and touches neither the request nor the response. *)
Lemma generatedId_shape options w :
  ∃ ev, is_generation ev = true
        ∧ trace (generatedId options w) = [ev]
        ∧ req (final (generatedId options w)) = req w
        ∧ res (final (generatedId options w)) = res w.
Proof.
  unfold generatedId.
  destruct (options ≫= Opt.generator) as [g|].
  - exists (EvGenerator (req w)). unfold call_generator.
    destruct (g (req w) (crypto w)) as [c cr]. by cbn.
  - exists EvRandomUUID. by cbn.
Qed.

Lemma requestId_throw options next w e :
  completion (generatedId options w) = Throw e →
  requestId options next w
  = mkRun (Throw e) (final (generatedId options w))
          (trace (generatedId options w)).
Proof.
  intros Hg. unfold requestId, mbind, M_bind. cbn zeta. by rewrite Hg.
Qed.

Lemma requestId_run options next w id :
  completion (generatedId options w) = Normal id →
  let v := resolved options w id in
  let w' := handed_over options w id (crypto (final (generatedId options w))) in
  requestId options next w
  = mkRun (next None w').1 (next None w').2
          (trace (generatedId options w)
           ++ (if setResponseHeader options
               then [EvSetHeader (headerName options) v] else [])
           ++ [EvAssignRequestId v; EvNext None w']).
Proof.
  intros Hg v w'. subst v w'.
  destruct (generatedId_shape options w) as (ev & _ & Ht & Hreq & Hres).
  unfold requestId, mbind, M_bind. cbn zeta. rewrite Hg.
  unfold handed_over, resolved, incomingHeader, get_header, call_next.
  destruct (generatedId options w) as [c [rq rs cr] t]; cbn in *; subst.
  destruct (setResponseHeader options); cbn;
    match goal with |- context [next None ?x] => destruct (next None x) end;
    reflexivity.
Qed.

(** When the candidate is computed without a throw, the handler makes its
    calls in a fixed order and ends by entering the continuation. *)
Lemma requestId_observed options next w id :
  completion (generatedId options w) = Normal id →
  ∃ ev cr,
    is_generation ev = true
    ∧ hd_error (trace (generatedId options w)) = Some ev
    ∧ trace (requestId options next w)
      = ev :: (if setResponseHeader options
               then [EvSetHeader (headerName options) (resolved options w id)]
               else [])
           ++ [EvAssignRequestId (resolved options w id);
               EvNext None (handed_over options w id cr)]
    ∧ (completion (requestId options next w), final (requestId options next w))
      = next None (handed_over options w id cr).
Proof.
  intros Hg.
  destruct (generatedId_shape options w) as (ev & Hev & Ht & _).
  exists ev, (crypto (final (generatedId options w))).
  rewrite (requestId_run options next w id Hg), Ht. cbn.
  repeat split; try done.
  by destruct (next None _).
Qed.

Lemma handed_over_requestId options w id cr :
  Http.requestId (req (handed_over options w id cr))
  = Some (resolved options w id).
Proof. done. Qed.

Lemma handed_over_echo options w id cr :
  setResponseHeader options = true →
  outHeaders (res (handed_over options w id cr)) !! headerName options
  = Some (resolved options w id).
Proof.
  intros Hset. unfold handed_over. rewrite Hset. cbn.
  apply lookup_insert_eq.
Qed.

(** The same run, seen through the observations. *)
Lemma requestId_calls options next w id :
  completion (generatedId options w) = Normal id →
  ∃ cr,
    next_calls (trace (requestId options next w))
    = [(None, handed_over options w id cr)]
    ∧ requestId_writes (trace (requestId options next w))
      = [resolved options w id]
    ∧ header_writes (trace (requestId options next w))
      = (if setResponseHeader options
         then [(headerName options, resolved options w id)] else [])
    ∧ last (trace (requestId options next w))
      = Some (EvNext None (handed_over options w id cr))
    ∧ (completion (requestId options next w), final (requestId options next w))
      = next None (handed_over options w id cr).
Proof.
  intros Hg.
  destruct (requestId_observed options next w id Hg)
    as (ev & cr & Hev & _ & Ht & Hk).
  exists cr. rewrite Ht.
  split_and!; try done; destruct (setResponseHeader options); observe Hev.
Qed.

Lemma generatedId_custom options (g : Generator) w :
  options ≫= Opt.generator = Some g →
  generatedId options w = call_generator g w.
Proof. intros Hopt. unfold generatedId. by rewrite Hopt. Qed.

Lemma generatedId_default options w :
  options ≫= Opt.generator = None →
  generatedId options w = randomUUID w.
Proof. intros Hopt. unfold generatedId. by rewrite Hopt. Qed.

(** ** The run of the handler on an arbitrary host *)

(** On the accepting host the handler is [requestId]. *)
Lemma requestId_on_accepting options next w :
  requestId_on accepting options next w = requestId options next w.
Proof. reflexivity. Qed.

Lemma requestId_on_throw host options next w e :
  completion (generatedId options w) = Throw e →
  requestId_on host options next w
  = mkRun (Throw e) (final (generatedId options w))
          (trace (generatedId options w)).
Proof.
  intros Hg. unfold requestId_on, mbind, M_bind. cbn zeta. by rewrite Hg.
Qed.

(** The host refuses the write: the call ends there. *)
Lemma requestId_on_refused host options next w id e :
  completion (generatedId options w) = Normal id →
  setResponseHeader options = true →
  host_setHeader host (headerName options) (resolved options w id) (res w)
  = Throw e →
  requestId_on host options next w
  = mkRun (Throw e) (final (generatedId options w))
          (trace (generatedId options w)
           ++ [EvSetHeader (headerName options) (resolved options w id)]).
Proof.
  intros Hg Hset Hhost.
  destruct (generatedId_shape options w) as (ev & _ & Ht & Hreq & Hres).
  unfold requestId_on, mbind, M_bind. cbn zeta. rewrite Hg, Hset.
  unfold resolved, incomingHeader, get_header, setHeader_on in *.
  destruct (generatedId options w) as [c [rq rs cr] t]; cbn in *; subst.
  by rewrite Hhost.
Qed.

(** The write is accepted, or not made: the call reaches the continuation. *)
Lemma requestId_on_run host options next w id rs :
  completion (generatedId options w) = Normal id →
  (if setResponseHeader options
   then host_setHeader host (headerName options) (resolved options w id) (res w)
        = Normal rs
   else rs = res w) →
  let v := resolved options w id in
  let w' := entry_world options w id rs (crypto (final (generatedId options w))) in
  requestId_on host options next w
  = mkRun (next None w').1 (next None w').2
          (trace (generatedId options w)
           ++ (if setResponseHeader options
               then [EvSetHeader (headerName options) v] else [])
           ++ [EvAssignRequestId v; EvNext None w']).
Proof.
  intros Hg Hhost v w'. subst v w'.
  destruct (generatedId_shape options w) as (ev & _ & Ht & Hreq & Hres).
  unfold requestId_on, mbind, M_bind. cbn zeta. rewrite Hg.
  unfold entry_world, resolved, incomingHeader, get_header, call_next,
    setHeader_on in *.
  destruct (generatedId options w) as [c [rq rs' cr] t]; cbn in *; subst.
  destruct (setResponseHeader options); cbn.
  - rewrite Hhost. cbn.
    match goal with |- context [next None ?x] => destruct (next None x) end.
    reflexivity.
  - subst rs.
    match goal with |- context [next None ?x] => destruct (next None x) end.
    reflexivity.
Qed.

Lemma outcome host options w : Outcome host options w.
Proof.
  destruct (completion (generatedId options w)) as [id|e] eqn:Hg;
    [|by eapply GeneratorThrew].
  destruct (setResponseHeader options) eqn:Hset.
  - destruct (host_setHeader host (headerName options)
                (resolved options w id) (res w)) as [rs|e] eqn:Hhost.
    + eapply (Reached _ _ _ id rs); [done|]. by rewrite Hset.
    + by eapply HostRefused.
  - eapply (Reached _ _ _ id (res w)); [done|]. by rewrite Hset.
Qed.

(** ** Properties *)

(** C1. A request that carries a non-empty value under the configured header
    name gets that value as [req.requestId]: the value itself when the header
    is single, the first value when the header is a list.  The candidate [id]
    plays no part: the resolved identifier is [v] whatever [id] was. *)
Theorem header_precedence options next w hs id v rest :
  completion (generatedId options w) = Normal id →
  headers (req w) = Some hs →
  hs !! headerName options = Some (Single v)
  ∨ hs !! headerName options = Some (Multi (v :: rest)) →
  v ≠ "" →
  ∃ w',
    next_calls (trace (requestId options next w)) = [(None, w')]
    ∧ requestId_writes (trace (requestId options next w)) = [v]
    ∧ Http.requestId (req w') = Some v
    ∧ resolved options w id = v.
Proof.
  intros Hg Hhs Hv _.
  assert (resolved options w id = v) as Hres.
  { unfold resolved, incomingHeader. rewrite Hhs. cbn.
    by destruct Hv as [-> | ->]. }
  destruct (requestId_calls options next w id Hg) as (cr & Hn & Hw & _).
  exists (handed_over options w id cr).
  by rewrite Hn, Hw, handed_over_requestId, Hres.
Qed.

Lemma header_precedence_witness :
  ∃ w',
    next_calls
      (trace (requestId None done
                (request [("x-request-id", Multi ["id-1"; "id-2"])])))
    = [(None, w')]
    ∧ requestId_writes
        (trace (requestId None done
                  (request [("x-request-id", Multi ["id-1"; "id-2"])])))
      = ["id-1"]
    ∧ Http.requestId (req w') = Some "id-1"
    ∧ resolved None (request [("x-request-id", Multi ["id-1"; "id-2"])]) "uuid"
      = "id-1".
Proof.
  apply (header_precedence None done
           (request [("x-request-id", Multi ["id-1"; "id-2"])])
           (list_to_map [("x-request-id", Multi ["id-1"; "id-2"])])
           "uuid" "id-1" ["id-2"]).
  - reflexivity.
  - reflexivity.
  - right. vm_compute. reflexivity.
  - discriminate.
Defined.

(** C2, refuted.  With the header [x-request-id: ""] and a generator that
    returns ["gen"], the handler attaches the empty string; the same happens
    when the header is the list [["", "id-2"]]. *)
Lemma empty_value_fallback_fails :
  (Http.requestId
     (req (final (requestId (with_generator (constant "gen")) done empty_single)))
   = Some ""
   ∧ ¬ empty_value_fallback (with_generator (constant "gen")) done empty_single)
  ∧ (Http.requestId
       (req (final (requestId (with_generator (constant "gen")) done empty_first)))
     = Some ""
     ∧ ¬ empty_value_fallback (with_generator (constant "gen")) done empty_first).
Proof.
  split; (split; [reflexivity|]); intros H;
    destruct (H "gen") as (w' & Hn & Hid & _);
    try reflexivity; try (left; reflexivity); try (right; eexists; reflexivity);
    vm_compute in Hn; injection Hn as <-; discriminate Hid.
Qed.

(** C2, amended.  [??] replaces only a missing value.  An empty string
    under the configured header name, single or first of a list, is kept
    and becomes [req.requestId]; the candidate is used when the header is
    absent or is a list without a first element. *)
Theorem empty_header_kept options next w id :
  completion (generatedId options w) = Normal id →
  ∃ w',
    next_calls (trace (requestId options next w)) = [(None, w')]
    ∧ (empty_incoming options w → Http.requestId (req w') = Some "")
    ∧ (incomingHeader options w = None
       ∨ incomingHeader options w = Some (Multi []) →
       Http.requestId (req w') = Some id).
Proof.
  intros Hg.
  destruct (requestId_calls options next w id Hg) as (cr & Hn & _).
  exists (handed_over options w id cr).
  rewrite Hn, handed_over_requestId. unfold resolved, empty_incoming.
  split_and!; [done | |].
  - by intros [-> | [rest ->]].
  - by intros [-> | ->].
Qed.

Lemma empty_header_kept_witness :
  ∃ w',
    next_calls
      (trace (requestId (with_generator (constant "gen")) done empty_single))
    = [(None, w')]
    ∧ (empty_incoming (with_generator (constant "gen")) empty_single →
       Http.requestId (req w') = Some "")
    ∧ (incomingHeader (with_generator (constant "gen")) empty_single = None
       ∨ incomingHeader (with_generator (constant "gen")) empty_single
         = Some (Multi []) →
       Http.requestId (req w') = Some "gen").
Proof.
  apply (empty_header_kept (with_generator (constant "gen")) done
           empty_single "gen").
  reflexivity.
Defined.

(** C3.  The lookup [req.headers?.[headerName]] is an exact property access.
    Configured with ["X-Correlation-Id"], the handler finds the value of a
    request that stores the header under that very spelling, and misses it
    on a request that stores it under ["x-correlation-id"], where it attaches
    the candidate instead: the two capitalizations do not resolve alike. *)
Theorem header_lookup_is_exact :
  Http.requestId
    (req (final (requestId correlation_options done
                   (request [("X-Correlation-Id", Single "abc-123")]))))
  = Some "abc-123"
  ∧ Http.requestId
      (req (final (requestId correlation_options done
                     (request [("x-correlation-id", Single "abc-123")]))))
    = Some "gen"
  ∧ incomingHeader correlation_options
      (request [("x-correlation-id", Single "abc-123")])
    = None.
Proof. repeat split; vm_compute; reflexivity. Qed.

(** C4.  Every call of the handler computes the candidate, on every host
    and whatever the request carries.  Exactly one call of the run computes
    an identifier, and it is the first: the configured generator applied to
    the request, or [randomUUID] when none is configured.  The call is
    really made: if the generator throws, so does the handler, on the spot;
    otherwise the handler goes on with what it returned, or with the
    identifier drawn, and with the entropy this left. *)
Theorem candidate_computed_once host options next w :
  generation_calls (trace (requestId_on host options next w)) = 1
  ∧ match options ≫= Opt.generator with
    | Some g =>
        hd_error (trace (requestId_on host options next w))
        = Some (EvGenerator (req w))
        ∧ match g (req w) (crypto w) with
          | (Normal id, cr) => candidate_is_used host options next w id cr
          | (Throw e, cr) =>
              requestId_on host options next w
              = mkRun (Throw e) (mkWorld (req w) (res w) cr)
                      [EvGenerator (req w)]
          end
    | None =>
        hd_error (trace (requestId_on host options next w)) = Some EvRandomUUID
        ∧ candidate_is_used host options next w
            (Crypto.supply (crypto w) (Crypto.drawn (crypto w)))
            (Crypto.mk (Crypto.supply (crypto w)) (S (Crypto.drawn (crypto w))))
    end.
Proof.
  assert (∀ id ev cr,
            generatedId options w
            = mkRun (Normal id) (mkWorld (req w) (res w) cr) [ev] →
            is_generation ev = true →
            generation_calls (trace (requestId_on host options next w)) = 1
            ∧ hd_error (trace (requestId_on host options next w)) = Some ev
            ∧ candidate_is_used host options next w id cr) as Hused.
  { intros id ev cr Hrun Hev.
    assert (completion (generatedId options w) = Normal id) as Hg
      by by rewrite Hrun.
    unfold candidate_is_used, generation_calls, header_writes,
      requestId_writes, next_calls.
    destruct (outcome host options w) as [e Hg'|id' e Hg' Hset Hhost|id' rs Hg' Hhost];
      rewrite Hg in Hg'; try discriminate Hg'; injection Hg' as <-.
    - rewrite (requestId_on_refused host options next w id e Hg Hset Hhost).
      rewrite (requestId_on_refused host options done w id e Hg Hset Hhost).
      rewrite Hset, Hrun.
      destruct ev; try discriminate Hev; cbn; split_and!; by repeat constructor.
    - rewrite (requestId_on_run host options next w id rs Hg Hhost).
      rewrite (requestId_on_run host options done w id rs Hg Hhost).
      rewrite Hrun. cbn.
      destruct ev; try discriminate Hev;
        destruct (setResponseHeader options); cbn; split_and!;
        by repeat constructor. }
  match goal with
  | |- context [match ?o with Some _ => _ | None => _ end] =>
      destruct o as [g|] eqn:Hopt
  end.
  - pose proof (generatedId_custom options g w Hopt) as Hgen.
    unfold call_generator in Hgen.
    destruct (g (req w) (crypto w)) as [[id|e] cr].
    + destruct (Hused id (EvGenerator (req w)) cr Hgen eq_refl) as (? & ? & ?).
      done.
    + assert (completion (generatedId options w) = Throw e) as Hg
        by by rewrite Hgen.
      rewrite (requestId_on_throw host options next w e Hg), Hgen. done.
  - pose proof (generatedId_default options w Hopt) as Hgen.
    destruct (Hused _ EvRandomUUID _ Hgen eq_refl) as (? & ? & ?). done.
Qed.

(** C5.  The handler calls [res.setHeader] exactly when [setResponseHeader]
    is enabled.  Enabled, the one write puts the resolved identifier under
    the configured name, over any earlier value, and leaves the other
    response headers alone; disabled, the response is as it was.  In both
    cases [req.requestId] is the resolved identifier. *)
Theorem echo_iff_enabled options next w id :
  completion (generatedId options w) = Normal id →
  ∃ w',
    next_calls (trace (requestId options next w)) = [(None, w')]
    ∧ Http.requestId (req w') = Some (resolved options w id)
    ∧ if setResponseHeader options
      then header_writes (trace (requestId options next w))
           = [(headerName options, resolved options w id)]
           ∧ outHeaders (res w')
             = <[headerName options := resolved options w id]>
                 (outHeaders (res w))
      else header_writes (trace (requestId options next w)) = []
           ∧ res w' = res w.
Proof.
  intros Hg.
  destruct (requestId_calls options next w id Hg) as (cr & Hn & _ & Hh & _).
  exists (handed_over options w id cr).
  rewrite Hn, Hh, handed_over_requestId. unfold handed_over.
  by destruct (setResponseHeader options).
Qed.

Lemma echo_iff_enabled_witness :
  ∃ w',
    next_calls (trace (requestId echo_off done (request []))) = [(None, w')]
    ∧ Http.requestId (req w') = Some "uuid"
    ∧ header_writes (trace (requestId echo_off done (request []))) = []
    ∧ res w' = res (request []).
Proof.
  apply (echo_iff_enabled echo_off done (request []) "uuid").
  reflexivity.
Defined.

(** C6, refuted.  On a host that refuses the header name ["bad name"], with
    a generator that returns ["gen"], the handler completes with the
    host's throw: the continuation is not entered and [req.requestId] stays
    unset. *)
Lemma continuation_guarantee_fails :
  completion (generatedId bad_name_options (request [])) = Normal "gen"
  ∧ completion (requestId_on refusing_spaces bad_name_options done (request []))
    = Throw "ERR_INVALID_HTTP_TOKEN"
  ∧ next_calls
      (trace (requestId_on refusing_spaces bad_name_options done (request [])))
    = []
  ∧ Http.requestId
      (req (final (requestId_on refusing_spaces bad_name_options done
                     (request []))))
    = None
  ∧ ¬ never_short_circuits refusing_spaces bad_name_options done (request []).
Proof.
  split_and!; try reflexivity.
  intros H. destruct (H "gen" eq_refl) as (w' & Hn & _). discriminate Hn.
Qed.

(** C6, amended.  Provided the candidate is computed without a throw and
    the host accepts the write of the response header, when the echo is
    enabled, the handler enters the continuation exactly once, with no
    error argument, as the last call of its own run, and then completes as
    the continuation does. *)
Theorem continuation_invoked_once host options next w id :
  completion (generatedId options w) = Normal id →
  (setResponseHeader options = true →
   ∃ rs, host_setHeader host (headerName options) (resolved options w id)
           (res w) = Normal rs) →
  ∃ w',
    next_calls (trace (requestId_on host options next w)) = [(None, w')]
    ∧ last (trace (requestId_on host options next w)) = Some (EvNext None w')
    ∧ (completion (requestId_on host options next w),
       final (requestId_on host options next w))
      = next None w'.
Proof.
  intros Hg Haccepts.
  destruct (generatedId_shape options w) as (ev & Hev & Ht & _).
  destruct (outcome host options w) as [e Hg'|id' e Hg' Hset Hhost|id' rs Hg' Hhost];
    rewrite Hg in Hg'; try discriminate Hg'; injection Hg' as <-.
  - destruct (Haccepts Hset) as [rs Hrs]. congruence.
  - exists (entry_world options w id rs (crypto (final (generatedId options w)))).
    rewrite (requestId_on_run host options next w id rs Hg Hhost), Ht. cbn.
    split_and!.
    + destruct (setResponseHeader options); observe Hev.
    + by destruct (setResponseHeader options).
    + by destruct (next None _).
Qed.

Lemma continuation_invoked_once_witness :
  ∃ w',
    next_calls
      (trace (requestId_on refusing_spaces correlation_options done (request [])))
    = [(None, w')]
    ∧ last
        (trace (requestId_on refusing_spaces correlation_options done
                  (request [])))
      = Some (EvNext None w')
    ∧ (completion
         (requestId_on refusing_spaces correlation_options done (request [])),
       final
         (requestId_on refusing_spaces correlation_options done (request [])))
      = done None w'.
Proof.
  apply (continuation_invoked_once refusing_spaces correlation_options done
           (request []) "gen").
  - reflexivity.
  - intros _. eexists. vm_compute. reflexivity.
Defined.

(** C7.  One identifier serves every effect of a call.  After the single
    computation of the candidate the handler computes nothing more; the
    write to the response header, made when [setResponseHeader] is enabled,
    and the assignment to [req.requestId] carry the same string, which is
    what the continuation then finds in both places. *)
Theorem one_identifier_per_request options next w id :
  completion (generatedId options w) = Normal id →
  ∃ v ev w',
    is_generation ev = true
    ∧ trace (requestId options next w)
      = ev :: (if setResponseHeader options
               then [EvSetHeader (headerName options) v] else [])
           ++ [EvAssignRequestId v; EvNext None w']
    ∧ Http.requestId (req w') = Some v
    ∧ (setResponseHeader options = true →
       outHeaders (res w') !! headerName options = Some v).
Proof.
  intros Hg.
  destruct (requestId_observed options next w id Hg) as (ev & cr & Hev & _ & Ht & _).
  exists (resolved options w id), ev, (handed_over options w id cr).
  repeat split; [done | done | apply handed_over_echo].
Qed.

Lemma one_identifier_per_request_witness :
  ∃ v ev w',
    is_generation ev = true
    ∧ trace (requestId None done (request [("x-request-id", Single "abc-123")]))
      = ev :: (if setResponseHeader None
               then [EvSetHeader (headerName None) v] else [])
           ++ [EvAssignRequestId v; EvNext None w']
    ∧ Http.requestId (req w') = Some v
    ∧ (setResponseHeader None = true →
       outHeaders (res w') !! headerName None = Some v).
Proof.
  apply (one_identifier_per_request None done
           (request [("x-request-id", Single "abc-123")]) "uuid").
  reflexivity.
Defined.

(** C8, refuted.  The generator [req => req.requestId ?? "fresh"] uses no
    randomness, yet on two requests with the same (empty) headers, one of
    which has been through a handler before, it yields two identifiers. *)
Lemma same_headers_same_id_fails :
  without_randomness remembering
  ∧ headers (req (request [])) = headers (req (request_again []))
  ∧ Http.requestId
      (req (final (requestId (with_generator remembering) done (request []))))
    = Some "fresh"
  ∧ Http.requestId
      (req (final (requestId (with_generator remembering) done
                     (request_again []))))
    = Some "earlier"
  ∧ ¬ same_headers_same_id (with_generator remembering) done done
        (request []) (request_again []).
Proof.
  split_and!; try reflexivity.
  - by intros r c1 c2.
  - intros H.
    destruct (H remembering eq_refl) as (v & w1' & w2' & Hn1 & Hn2 & H1 & H2);
      [by intros r c1 c2 | reflexivity |].
    vm_compute in Hn1, Hn2. injection Hn1 as <-. injection Hn2 as <-.
    vm_compute in H1, H2. congruence.
Qed.

(** C8, amended.  Two calls of the handler of one configuration whose
    generator is determined by the headers, on requests with the same
    headers, resolve the same identifier, whatever else differs (the
    entropy, the response, an earlier [req.requestId], the continuation):
    both continuations find it as [req.requestId] and, when the echo is
    enabled, as the response header. *)
Theorem resolution_deterministic options (g : Generator) next1 next2 w1 w2 id :
  options ≫= Opt.generator = Some g →
  determined_by_headers g →
  headers (req w1) = headers (req w2) →
  completion (generatedId options w1) = Normal id →
  ∃ v w1' w2',
    next_calls (trace (requestId options next1 w1)) = [(None, w1')]
    ∧ next_calls (trace (requestId options next2 w2)) = [(None, w2')]
    ∧ Http.requestId (req w1') = Some v
    ∧ Http.requestId (req w2') = Some v
    ∧ (setResponseHeader options = true →
       outHeaders (res w1') !! headerName options = Some v
       ∧ outHeaders (res w2') !! headerName options = Some v).
Proof.
  intros Hopt Hdet Hhs Hg1.
  assert (completion (generatedId options w2) = Normal id) as Hg2.
  { revert Hg1. unfold generatedId. rewrite Hopt. unfold call_generator.
    pose proof (Hdet (req w1) (req w2) (crypto w1) (crypto w2) Hhs) as Heq.
    destruct (g (req w1) (crypto w1)), (g (req w2) (crypto w2)).
    cbn in *. congruence. }
  assert (resolved options w2 id = resolved options w1 id) as Hres.
  { unfold resolved, incomingHeader. by rewrite Hhs. }
  destruct (requestId_calls options next1 w1 id Hg1) as (cr1 & Hn1 & _).
  destruct (requestId_calls options next2 w2 id Hg2) as (cr2 & Hn2 & _).
  exists (resolved options w1 id),
    (handed_over options w1 id cr1), (handed_over options w2 id cr2).
  rewrite Hn1, Hn2, !handed_over_requestId, Hres.
  split_and!; try done. intros Hset. split.
  - by apply handed_over_echo.
  - rewrite <- Hres. by apply handed_over_echo.
Qed.

Lemma resolution_deterministic_witness :
  ∃ v w1' w2',
    next_calls
      (trace (requestId (with_generator (constant "fixed-id")) done (request [])))
    = [(None, w1')]
    ∧ next_calls
        (trace (requestId (with_generator (constant "fixed-id")) done
                  (request_again [])))
      = [(None, w2')]
    ∧ Http.requestId (req w1') = Some v
    ∧ Http.requestId (req w2') = Some v
    ∧ (setResponseHeader (with_generator (constant "fixed-id")) = true →
       outHeaders (res w1') !! headerName (with_generator (constant "fixed-id"))
       = Some v
       ∧ outHeaders (res w2') !! headerName (with_generator (constant "fixed-id"))
         = Some v).
Proof.
  apply (resolution_deterministic (with_generator (constant "fixed-id"))
           (constant "fixed-id") done done (request []) (request_again [])
           "fixed-id").
  - reflexivity.
  - intros r1 r2 c1 c2 _. reflexivity.
  - reflexivity.
  - reflexivity.
Defined.

(** C9.  What a configured generator returns is used as it is.  When it
    returns the empty string and the request has no value under the
    configured header name, [req.requestId] is the empty string, and so is
    the echoed response header when the echo is enabled. *)
Theorem empty_generated_id_is_kept options (g : Generator) next w :
  options ≫= Opt.generator = Some g →
  (g (req w) (crypto w)).1 = Normal "" →
  incomingHeader options w = None →
  ∃ w',
    next_calls (trace (requestId options next w)) = [(None, w')]
    ∧ Http.requestId (req w') = Some ""
    ∧ (setResponseHeader options = true →
       outHeaders (res w') !! headerName options = Some "").
Proof.
  intros Hopt Hret Hin.
  assert (completion (generatedId options w) = Normal "") as Hg.
  { unfold generatedId. rewrite Hopt. unfold call_generator.
    by destruct (g (req w) (crypto w)). }
  assert (resolved options w "" = "") as Hres.
  { unfold resolved. by rewrite Hin. }
  destruct (requestId_calls options next w "" Hg) as (cr & Hn & _).
  exists (handed_over options w "" cr).
  rewrite Hn, handed_over_requestId, Hres.
  split_and!; [done | done |].
  intros Hset. rewrite <- Hres at 2. by apply handed_over_echo.
Qed.

Lemma empty_generated_id_is_kept_witness :
  ∃ w',
    next_calls (trace (requestId (with_generator (constant "")) done (request [])))
    = [(None, w')]
    ∧ Http.requestId (req w') = Some ""
    ∧ (setResponseHeader (with_generator (constant "")) = true →
       outHeaders (res w') !! headerName (with_generator (constant ""))
       = Some "").
Proof.
  apply (empty_generated_id_is_kept (with_generator (constant ""))
           (constant "") done (request [])).
  - reflexivity.
  - reflexivity.
  - reflexivity.
Defined.

(** C10.  A request without a [headers] object is handled like one without
    the header: the lookup yields nothing, the candidate becomes
    [req.requestId], and the continuation is entered once with no error,
    the handler completing as the continuation does. *)
Theorem missing_headers_is_absent_header options next w id :
  headers (req w) = None →
  completion (generatedId options w) = Normal id →
  ∃ w',
    incomingHeader options w = None
    ∧ next_calls (trace (requestId options next w)) = [(None, w')]
    ∧ Http.requestId (req w') = Some id
    ∧ (completion (requestId options next w), final (requestId options next w))
      = next None w'.
Proof.
  intros Hhs Hg.
  assert (incomingHeader options w = None) as Hin.
  { unfold incomingHeader. by rewrite Hhs. }
  destruct (requestId_calls options next w id Hg) as (cr & Hn & _ & _ & _ & Hk).
  exists (handed_over options w id cr).
  rewrite Hn, Hk, handed_over_requestId. unfold resolved. by rewrite Hin.
Qed.

Lemma missing_headers_is_absent_header_witness :
  ∃ w',
    incomingHeader None bare_request = None
    ∧ next_calls (trace (requestId None done bare_request)) = [(None, w')]
    ∧ Http.requestId (req w') = Some "uuid"
    ∧ (completion (requestId None done bare_request),
       final (requestId None done bare_request))
      = done None w'.
Proof.
  apply (missing_headers_is_absent_header None done bare_request "uuid").
  - reflexivity.
  - reflexivity.
Defined.


(** ** Further properties of the handler *)

(** The world at the entry of the continuation, entropy included. *)
Lemma requestId_entry options next w id :
  completion (generatedId options w) = Normal id →
  next_calls (trace (requestId options next w))
  = [(None, handed_over options w id (crypto (final (generatedId options w))))].
Proof.
  intros Hg.
  destruct (generatedId_shape options w) as (ev & Hev & Ht & _).
  rewrite (requestId_run options next w id Hg), Ht. cbn.
  destruct (setResponseHeader options); observe Hev.
Qed.

Lemma requestId_no_entry options next w e :
  completion (generatedId options w) = Throw e →
  next_calls (trace (requestId options next w)) = [].
Proof.
  intros Hg.
  destruct (generatedId_shape options w) as (ev & Hev & Ht & _).
  rewrite (requestId_throw options next w e Hg), Ht. cbn. observe Hev.
Qed.

(** X1.  A generator that throws aborts the call, whatever the request
    carries: the handler completes with the thrown value after that one
    call, writes neither the response header nor [req.requestId], does not
    enter the continuation, and leaves request and response as they were. *)
Theorem generator_throw_aborts options (g : Generator) next w e :
  options ≫= Opt.generator = Some g →
  (g (req w) (crypto w)).1 = Throw e →
  completion (requestId options next w) = Throw e
  ∧ trace (requestId options next w) = [EvGenerator (req w)]
  ∧ req (final (requestId options next w)) = req w
  ∧ res (final (requestId options next w)) = res w.
Proof.
  intros Hopt Hthrow.
  assert (completion (generatedId options w) = Throw e) as Hg.
  { rewrite (generatedId_custom options g w Hopt). unfold call_generator.
    by destruct (g (req w) (crypto w)). }
  rewrite (requestId_throw options next w e Hg).
  rewrite (generatedId_custom options g w Hopt). unfold call_generator.
  by destruct (g (req w) (crypto w)).
Qed.

Lemma generator_throw_aborts_witness :
  completion
    (requestId (with_generator (failing "boom")) done
       (request [("x-request-id", Single "abc-123")]))
  = Throw "boom"
  ∧ trace
      (requestId (with_generator (failing "boom")) done
         (request [("x-request-id", Single "abc-123")]))
    = [EvGenerator (req (request [("x-request-id", Single "abc-123")]))]
  ∧ req (final
           (requestId (with_generator (failing "boom")) done
              (request [("x-request-id", Single "abc-123")])))
    = req (request [("x-request-id", Single "abc-123")])
  ∧ res (final
           (requestId (with_generator (failing "boom")) done
              (request [("x-request-id", Single "abc-123")])))
    = res (request [("x-request-id", Single "abc-123")]).
Proof.
  apply (generator_throw_aborts (with_generator (failing "boom"))
           (failing "boom") done
           (request [("x-request-id", Single "abc-123")]) "boom").
  - reflexivity.
  - reflexivity.
Defined.

(** X2.  On every host the handler changes nothing but [req.requestId]
    and what its one [res.setHeader] call changes.  Whenever the
    continuation is entered, and likewise in the world the handler itself
    leaves behind, the request headers are those of the start, and the
    response is either untouched or what the host's [setHeader], called
    under the configured name with the echo enabled, has made of it. *)
Theorem handler_frame host options next w :
  Forall (λ c, frame_kept host options w c.2)
         (next_calls (trace (requestId_on host options next w)))
  ∧ frame_kept host options w (final (requestId_on host options done w)).
Proof.
  destruct (generatedId_shape options w) as (ev & Hev & Ht & Hreq & Hres).
  destruct (outcome host options w) as [e Hg|id e Hg Hset Hhost|id rs Hg Hhost].
  - rewrite (requestId_on_throw host options next w e Hg).
    rewrite (requestId_on_throw host options done w e Hg), Ht. cbn.
    unfold frame_kept. rewrite Hreq, Hres.
    split; [observe Hev; apply Forall_nil_2 | by split; [|left]].
  - rewrite (requestId_on_refused host options next w id e Hg Hset Hhost).
    rewrite (requestId_on_refused host options done w id e Hg Hset Hhost), Ht.
    cbn. unfold frame_kept. rewrite Hreq, Hres.
    split; [observe Hev; apply Forall_nil_2 | by split; [|left]].
  - rewrite (requestId_on_run host options next w id rs Hg Hhost).
    rewrite (requestId_on_run host options done w id rs Hg Hhost), Ht.
    assert (frame_kept host options w
              (entry_world options w id rs
                 (crypto (final (generatedId options w))))) as Hframe.
    { split; [done|]. cbn.
      destruct (setResponseHeader options); [right | by left].
      split; [done|]. by eexists. }
    cbn. split; [|done].
    destruct (setResponseHeader options); observe Hev;
      by apply Forall_singleton.
Qed.

(** X3.  Only the configured name is read.  Two requests whose header
    objects agree under the configured name, and for which the candidate is
    the same, resolve the same identifier, however their other headers
    differ. *)
Theorem only_configured_header_is_read
    options next1 next2 w1 w2 (hs1 hs2 : gmap string HeaderValue) id :
  completion (generatedId options w1) = Normal id →
  completion (generatedId options w2) = Normal id →
  headers (req w1) = Some hs1 →
  headers (req w2) = Some hs2 →
  hs1 !! headerName options = hs2 !! headerName options →
  ∃ v w1' w2',
    next_calls (trace (requestId options next1 w1)) = [(None, w1')]
    ∧ next_calls (trace (requestId options next2 w2)) = [(None, w2')]
    ∧ Http.requestId (req w1') = Some v
    ∧ Http.requestId (req w2') = Some v.
Proof.
  intros Hg1 Hg2 Hhs1 Hhs2 Hsame.
  exists (resolved options w1 id),
    (handed_over options w1 id (crypto (final (generatedId options w1)))),
    (handed_over options w2 id (crypto (final (generatedId options w2)))).
  rewrite (requestId_entry options next1 w1 id Hg1).
  rewrite (requestId_entry options next2 w2 id Hg2).
  rewrite !handed_over_requestId.
  split_and!; try done.
  unfold resolved, incomingHeader. rewrite Hhs1, Hhs2. cbn. by rewrite Hsame.
Qed.

Lemma only_configured_header_is_read_witness :
  ∃ v w1' w2',
    next_calls
      (trace (requestId None done
                (request [("x-request-id", Single "abc-123")])))
    = [(None, w1')]
    ∧ next_calls
        (trace (requestId None done
                  (request [("x-request-id", Single "abc-123");
                            ("x-correlation-id", Single "other");
                            ("X-Request-Id", Single "shadow")])))
      = [(None, w2')]
    ∧ Http.requestId (req w1') = Some v
    ∧ Http.requestId (req w2') = Some v.
Proof.
  apply (only_configured_header_is_read None done done
           (request [("x-request-id", Single "abc-123")])
           (request [("x-request-id", Single "abc-123");
                     ("x-correlation-id", Single "other");
                     ("X-Request-Id", Single "shadow")])
           (list_to_map [("x-request-id", Single "abc-123")])
           (list_to_map [("x-request-id", Single "abc-123");
                         ("x-correlation-id", Single "other");
                         ("X-Request-Id", Single "shadow")])
           "uuid").
  - reflexivity.
  - reflexivity.
  - reflexivity.
  - reflexivity.
  - vm_compute. reflexivity.
Defined.

(** X4.  An echoed identifier survives the next hop.  If a handler with
    the echo enabled has put [v] on its response under its header name, and
    a later request carries [v] as the single value of that header, then
    any handler configured with the same name, whatever its generator and
    echo setting, attaches [v] again: both requests end up with the same
    [req.requestId]. *)
Theorem echoed_id_propagates
    o1 o2 next1 next2 w1 w2 w1' (hs2 : gmap string HeaderValue) v id2 :
  setResponseHeader o1 = true →
  next_calls (trace (requestId o1 next1 w1)) = [(None, w1')] →
  outHeaders (res w1') !! headerName o1 = Some v →
  headerName o2 = headerName o1 →
  headers (req w2) = Some hs2 →
  hs2 !! headerName o2 = Some (Single v) →
  completion (generatedId o2 w2) = Normal id2 →
  ∃ w2',
    next_calls (trace (requestId o2 next2 w2)) = [(None, w2')]
    ∧ Http.requestId (req w2') = Some v
    ∧ Http.requestId (req w1') = Some v.
Proof.
  intros Hecho Hn1 Hv Hname Hhs2 Hin2 Hg2.
  destruct (completion (generatedId o1 w1)) as [id1|e] eqn:Hg1.
  - rewrite (requestId_entry o1 next1 w1 id1 Hg1) in Hn1.
    injection Hn1 as <-.
    rewrite (handed_over_echo _ _ _ _ Hecho) in Hv. injection Hv as <-.
    exists (handed_over o2 w2 id2 (crypto (final (generatedId o2 w2)))).
    rewrite (requestId_entry o2 next2 w2 id2 Hg2), !handed_over_requestId.
    split_and!; try done.
    unfold resolved at 1. unfold incomingHeader. rewrite Hhs2. cbn.
    by rewrite Hin2.
  - by rewrite (requestId_no_entry o1 next1 w1 e Hg1) in Hn1.
Qed.

Lemma echoed_id_propagates_witness :
  ∃ w2',
    next_calls
      (trace (requestId echo_off done
                (request [("x-request-id", Single "uuid")])))
    = [(None, w2')]
    ∧ Http.requestId (req w2') = Some "uuid"
    ∧ Http.requestId (req (final (requestId None done (request []))))
      = Some "uuid".
Proof.
  apply (echoed_id_propagates None echo_off done done
           (request []) (request [("x-request-id", Single "uuid")])
           (final (requestId None done (request [])))
           (list_to_map [("x-request-id", Single "uuid")])
           "uuid" "uuid").
  - reflexivity.
  - reflexivity.
  - vm_compute. reflexivity.
  - reflexivity.
  - reflexivity.
  - vm_compute. reflexivity.
  - reflexivity.
Defined.

(** X5.  Without a configured generator every call draws exactly one
    identifier from [randomUUID], whether or not the request carries the
    header.  When the header is absent (or is an empty list) that very
    identifier becomes [req.requestId] and, with the echo enabled, the
    response header. *)
Theorem default_id_is_the_drawn_uuid options next w :
  options ≫= Opt.generator = None →
  ∃ w',
    next_calls (trace (requestId options next w)) = [(None, w')]
    ∧ crypto w'
      = Crypto.mk (Crypto.supply (crypto w)) (S (Crypto.drawn (crypto w)))
    ∧ (incomingHeader options w = None
       ∨ incomingHeader options w = Some (Multi []) →
       Http.requestId (req w')
       = Some (Crypto.supply (crypto w) (Crypto.drawn (crypto w)))
       ∧ (setResponseHeader options = true →
          outHeaders (res w') !! headerName options
          = Some (Crypto.supply (crypto w) (Crypto.drawn (crypto w))))).
Proof.
  intros Hopt.
  pose proof (generatedId_default options w Hopt) as Hgen.
  set (id := Crypto.supply (crypto w) (Crypto.drawn (crypto w))).
  assert (completion (generatedId options w) = Normal id) as Hg
    by by rewrite Hgen.
  exists (handed_over options w id (crypto (final (generatedId options w)))).
  rewrite (requestId_entry options next w id Hg), handed_over_requestId.
  split_and!; [done | by rewrite Hgen |].
  intros Hin.
  assert (resolved options w id = id) as Hres.
  { unfold resolved. by destruct Hin as [-> | ->]. }
  split; [by rewrite Hres|].
  intros Hset.
  etrans; [exact (handed_over_echo options w id _ Hset) | by rewrite Hres].
Qed.

Lemma default_id_is_the_drawn_uuid_witness :
  ∃ w',
    next_calls (trace (requestId None done (numbered_request 41 [])))
    = [(None, w')]
    ∧ crypto w' = Crypto.mk pretty 42
    ∧ (incomingHeader None (numbered_request 41 []) = None
       ∨ incomingHeader None (numbered_request 41 []) = Some (Multi []) →
       Http.requestId (req w') = Some "41"
       ∧ (setResponseHeader None = true →
          outHeaders (res w') !! headerName None = Some "41")).
Proof.
  apply (default_id_is_the_drawn_uuid None done (numbered_request 41 [])).
  reflexivity.
Defined.

(** X6.  The handler keeps no identifier from one request to the next.
    Two header-less requests served by a handler without generator, the
    second when more identifiers have been drawn than at the first, get
    different identifiers as long as [randomUUID] never repeats itself. *)
Theorem successive_default_ids_differ options next1 next2 w1 w2 :
  options ≫= Opt.generator = None →
  incomingHeader options w1 = None →
  incomingHeader options w2 = None →
  Inj (=) (=) (Crypto.supply (crypto w1)) →
  Crypto.supply (crypto w2) = Crypto.supply (crypto w1) →
  Crypto.drawn (crypto w1) < Crypto.drawn (crypto w2) →
  ∃ v1 v2 w1' w2',
    next_calls (trace (requestId options next1 w1)) = [(None, w1')]
    ∧ next_calls (trace (requestId options next2 w2)) = [(None, w2')]
    ∧ Http.requestId (req w1') = Some v1
    ∧ Http.requestId (req w2') = Some v2
    ∧ v1 ≠ v2.
Proof.
  intros Hopt Hin1 Hin2 Hinj Hsupply Hlater.
  set (v1 := Crypto.supply (crypto w1) (Crypto.drawn (crypto w1))).
  set (v2 := Crypto.supply (crypto w2) (Crypto.drawn (crypto w2))).
  assert (completion (generatedId options w1) = Normal v1) as Hg1
    by by rewrite (generatedId_default options w1 Hopt).
  assert (completion (generatedId options w2) = Normal v2) as Hg2
    by by rewrite (generatedId_default options w2 Hopt).
  exists v1, v2,
    (handed_over options w1 v1 (crypto (final (generatedId options w1)))),
    (handed_over options w2 v2 (crypto (final (generatedId options w2)))).
  rewrite (requestId_entry options next1 w1 v1 Hg1).
  rewrite (requestId_entry options next2 w2 v2 Hg2).
  rewrite !handed_over_requestId. unfold resolved. rewrite Hin1, Hin2. cbn.
  split_and!; try done.
  subst v1 v2. rewrite Hsupply. intros Heq. apply Hinj in Heq. lia.
Qed.

Lemma successive_default_ids_differ_witness :
  ∃ v1 v2 w1' w2',
    next_calls (trace (requestId None done (numbered_request 0 [])))
    = [(None, w1')]
    ∧ next_calls (trace (requestId None done (numbered_request 1 [])))
      = [(None, w2')]
    ∧ Http.requestId (req w1') = Some v1
    ∧ Http.requestId (req w2') = Some v2
    ∧ v1 ≠ v2.
Proof.
  apply (successive_default_ids_differ None done done
           (numbered_request 0 []) (numbered_request 1 [])).
  - reflexivity.
  - reflexivity.
  - reflexivity.
  - apply pretty_nat_inj.
  - reflexivity.
  - simpl. lia.
Defined.

(** X7.  A configured generator replaces [randomUUID] altogether.  When it
    returns [id] and the request has nothing under the configured name,
    [id] is attached and, with the echo enabled, echoed; the handler draws
    no identifier itself, so the entropy is as the generator left it. *)
Theorem custom_generator_result_is_used options (g : Generator) next w id cr :
  options ≫= Opt.generator = Some g →
  g (req w) (crypto w) = (Normal id, cr) →
  incomingHeader options w = None →
  ∃ w',
    next_calls (trace (requestId options next w)) = [(None, w')]
    ∧ hd_error (trace (requestId options next w)) = Some (EvGenerator (req w))
    ∧ Http.requestId (req w') = Some id
    ∧ crypto w' = cr
    ∧ (setResponseHeader options = true →
       outHeaders (res w') !! headerName options = Some id).
Proof.
  intros Hopt Hret Hin.
  pose proof (generatedId_custom options g w Hopt) as Hgen.
  assert (generatedId options w
          = mkRun (Normal id) (mkWorld (req w) (res w) cr) [EvGenerator (req w)])
    as Hrun.
  { rewrite Hgen. unfold call_generator. by rewrite Hret. }
  assert (completion (generatedId options w) = Normal id) as Hg
    by by rewrite Hrun.
  assert (resolved options w id = id) as Hres.
  { unfold resolved. by rewrite Hin. }
  exists (handed_over options w id cr).
  split_and!.
  - by rewrite (requestId_entry options next w id Hg), Hrun.
  - by rewrite (requestId_run options next w id Hg), Hrun.
  - by rewrite handed_over_requestId, Hres.
  - done.
  - intros Hset.
    etrans; [exact (handed_over_echo options w id cr Hset) | by rewrite Hres].
Qed.

Lemma custom_generator_result_is_used_witness :
  ∃ w',
    next_calls
      (trace (requestId (with_generator (constant "fixed-id")) done
                (numbered_request 5 [])))
    = [(None, w')]
    ∧ hd_error
        (trace (requestId (with_generator (constant "fixed-id")) done
                  (numbered_request 5 [])))
      = Some (EvGenerator (req (numbered_request 5 [])))
    ∧ Http.requestId (req w') = Some "fixed-id"
    ∧ crypto w' = Crypto.mk pretty 5
    ∧ (setResponseHeader (with_generator (constant "fixed-id")) = true →
       outHeaders (res w') !! headerName (with_generator (constant "fixed-id"))
       = Some "fixed-id").
Proof.
  apply (custom_generator_result_is_used
           (with_generator (constant "fixed-id")) (constant "fixed-id") done
           (numbered_request 5 []) "fixed-id" (Crypto.mk pretty 5)).
  - reflexivity.
  - reflexivity.
  - reflexivity.
Defined.

(** X8.  The handler raises nothing of its own.  When a call completes
    with a thrown value, on any host, it was thrown by the configured
    generator, and then nothing else was called; or by the host's
    [res.setHeader], called with the echo enabled, and then neither was
    [req.requestId] assigned nor the continuation entered; or by the
    continuation, after being entered once with no error in a world where
    [req.requestId] was already set. *)
Theorem throw_comes_from_a_collaborator host options next w e :
  completion (requestId_on host options next w) = Throw e →
  (∃ g : Generator,
     options ≫= Opt.generator = Some g
     ∧ (g (req w) (crypto w)).1 = Throw e
     ∧ next_calls (trace (requestId_on host options next w)) = [])
  ∨ (∃ id,
       completion (generatedId options w) = Normal id
       ∧ setResponseHeader options = true
       ∧ host_setHeader host (headerName options) (resolved options w id)
           (res w) = Throw e
       ∧ requestId_writes (trace (requestId_on host options next w)) = []
       ∧ next_calls (trace (requestId_on host options next w)) = [])
  ∨ (∃ w',
       next_calls (trace (requestId_on host options next w)) = [(None, w')]
       ∧ (next None w').1 = Throw e
       ∧ is_Some (Http.requestId (req w'))).
Proof.
  intros Hthrow.
  destruct (generatedId_shape options w) as (ev & Hev & Ht & _).
  destruct (outcome host options w) as [e' Hg|id e' Hg Hset Hhost|id rs Hg Hhost].
  - left.
    rewrite (requestId_on_throw host options next w e' Hg) in Hthrow |- *.
    injection Hthrow as ->.
    destruct (options ≫= Opt.generator) as [g|] eqn:Hopt.
    + exists g. rewrite Ht. split_and!; [done | | observe Hev].
      rewrite (generatedId_custom options g w Hopt) in Hg.
      unfold call_generator in Hg. by destruct (g (req w) (crypto w)).
    + by rewrite (generatedId_default options w Hopt) in Hg.
  - right; left. exists id.
    rewrite (requestId_on_refused host options next w id e' Hg Hset Hhost)
      in Hthrow |- *.
    injection Hthrow as ->. rewrite Ht.
    split_and!; try done; observe Hev.
  - right; right.
    exists (entry_world options w id rs (crypto (final (generatedId options w)))).
    rewrite (requestId_on_run host options next w id rs Hg Hhost)
      in Hthrow |- *.
    rewrite Ht. split_and!; [| done | by eexists].
    destruct (setResponseHeader options); observe Hev.
Qed.

Lemma throw_comes_from_a_collaborator_witness :
  (∃ g : Generator,
     bad_name_options ≫= Opt.generator = Some g
     ∧ (g (req (request [])) (crypto (request []))).1
       = Throw "ERR_INVALID_HTTP_TOKEN"
     ∧ next_calls
         (trace (requestId_on refusing_spaces bad_name_options done
                   (request [])))
       = [])
  ∨ (∃ id,
       completion (generatedId bad_name_options (request [])) = Normal id
       ∧ setResponseHeader bad_name_options = true
       ∧ host_setHeader refusing_spaces (headerName bad_name_options)
           (resolved bad_name_options (request []) id) (res (request []))
         = Throw "ERR_INVALID_HTTP_TOKEN"
       ∧ requestId_writes
           (trace (requestId_on refusing_spaces bad_name_options done
                     (request [])))
         = []
       ∧ next_calls
           (trace (requestId_on refusing_spaces bad_name_options done
                     (request [])))
         = [])
  ∨ (∃ w',
       next_calls
         (trace (requestId_on refusing_spaces bad_name_options done
                   (request [])))
       = [(None, w')]
       ∧ (done None w').1 = Throw "ERR_INVALID_HTTP_TOKEN"
       ∧ is_Some (Http.requestId (req w'))).
Proof.
  apply (throw_comes_from_a_collaborator refusing_spaces bad_name_options
           done (request []) "ERR_INVALID_HTTP_TOKEN").
  reflexivity.
Defined.

(** X9.  The continuation is called in tail position.  What the handler
    does before entering it does not depend on it, and nothing is done
    after it returns: the calls are those of the run with a continuation
    that does nothing, and when the candidate is computed without a throw
    the call completes exactly as the continuation does from the world
    that run ends in; otherwise the two runs coincide. *)
Theorem continuation_in_tail_position options next w :
  trace (requestId options next w) = trace (requestId options done w)
  ∧ match completion (requestId options done w) with
    | Normal _ =>
        (completion (requestId options next w),
         final (requestId options next w))
        = next None (final (requestId options done w))
    | Throw _ => requestId options next w = requestId options done w
    end.
Proof.
  destruct (completion (generatedId options w)) as [id|e] eqn:Hg.
  - rewrite (requestId_run options next w id Hg).
    rewrite (requestId_run options done w id Hg). cbn.
    split; [done|]. by destruct (next None _).
  - rewrite (requestId_throw options next w e Hg).
    by rewrite (requestId_throw options done w e Hg).
Qed.
